(** * The multi-subject fNIRS loading script (zzz.py)

    A shallow embedding of the module body of [zzz.py]: the import
    prelude, the directory scan, the subject labels, and the per-subject
    loop that reads a recording, derives optical density and
    concentration and stores a dataset in the dictionary [data].

    The third-party libraries the script calls (pathlib, cedalion, xarray,
    numpy) are not part of the repository.  Their entry points are the
    fields of the classes [Numeric] and [Library]; what the script itself
    does with them is written out. *)

From Stdlib Require Import Ascii DecimalString DecimalNat.
From stdpp Require Import gmap strings list fin_maps sorting.

Open Scope string_scope.
Set Warnings "-clear-no-such-hyp".

(** ** Paths and their order

    A [pathlib.Path] is compared through its tuple of parts.  Python
    compares sequences lexicographically: the first position where the
    two differ decides, and a proper prefix is the smaller one.  Strings
    are compared by code point. *)

Abbreviation path := (list string).

Module PyOrder.

(** [seq.__le__] over elements with [==] and [<=]. *)
Fixpoint lex_leb {A : Type} (eqb leb : A -> A -> bool) (l1 l2 : list A) : bool :=
  match l1, l2 with
  | [], _ => true
  | _ :: _, [] => false
  | x :: l1', y :: l2' => if eqb x y then lex_leb eqb leb l1' l2' else leb x y
  end.

(** [seq.__lt__] over elements with [==] and [<]. *)
Fixpoint lex_ltb {A : Type} (eqb ltb : A -> A -> bool) (l1 l2 : list A) : bool :=
  match l1, l2 with
  | _, [] => false
  | [], _ :: _ => true
  | x :: l1', y :: l2' => if eqb x y then lex_ltb eqb ltb l1' l2' else ltb x y
  end.

(** [PurePath.__le__] and [PurePath.__lt__]: the order of the tuples of
    parts, each part a [str] compared by code point (the POSIX flavour,
    which does not fold case). *)
Definition path_leb (p q : path) : bool := lex_leb String.eqb String.leb p q.
Definition path_ltb (p q : path) : bool := lex_ltb String.eqb String.ltb p q.

(** [p <= q] as a proposition. *)
Definition path_le (p q : path) : Prop := path_leb p q = true.

(** [sorted(l)]: a stable sort that only asks [<].  [insert x l] puts
    [x] in front of the first element that is not smaller than it, so an
    element that came earlier stays in front of its equals. *)
Fixpoint insert (x : path) (l : list path) : list path :=
  match l with
  | [] => [x]
  | y :: l' => if path_ltb y x then y :: insert x l' else x :: l
  end.

Definition sorted (l : list path) : list path := foldr insert [] l.

End PyOrder.

(** ** Globbing

    [fnmatch] for patterns made of literal characters, [*] and [?], which
    is all that ["*.snirf"] needs. *)

Module Glob.

Fixpoint fnmatch (pat name : string) {struct pat} : bool :=
  match pat with
  | EmptyString => match name with EmptyString => true | _ => false end
  | String c pat' =>
      if Ascii.eqb c "*"%char then
        (fix star (s : string) : bool :=
           fnmatch pat' s ||
           match s with EmptyString => false | String _ s' => star s' end) name
      else if Ascii.eqb c "?"%char then
        match name with EmptyString => false | String _ s' => fnmatch pat' s' end
      else
        match name with
        | EmptyString => false
        | String d s' => Ascii.eqb c d && fnmatch pat' s'
        end
  end.

(** A pattern without wildcards. *)
Fixpoint is_literal (pat : string) : bool :=
  match pat with
  | EmptyString => true
  | String c pat' =>
      negb (Ascii.eqb c "*"%char) && negb (Ascii.eqb c "?"%char) && is_literal pat'
  end.

(** The final component of a path ([PurePath.name]); empty for the empty
    path. *)
Definition name (p : path) : string := List.last p EmptyString.

(** [Path(dir).rglob(pattern)] over a directory tree given by the list
    [tree] of its entries, each as its path relative to [dir], in the
    order the operating system lists them.  A directory that does not
    exist has no entries. *)
Definition rglob (dir : path) (pattern : string) (tree : list path) : list path :=
  map (fun rel => (dir ++ rel)%list) (filter (fun rel => fnmatch pattern (name rel) = true) tree).

End Glob.

(** ** Subject labels *)

(** [str(i)] for a natural number. *)
Definition str_of_nat (i : nat) : string := NilEmpty.string_of_uint (Nat.to_uint i).

(** [f"{i:02d}"]: decimal digits, padded with zeros on the left to a
    width of at least two. *)
Definition fmt_02d (i : nat) : string :=
  let s := str_of_nat i in
  if Nat.ltb (String.length s) 2 then "0" ++ s else s.

(** [f"sub-{i:02d}"]. *)
Definition subject_label (i : nat) : string := "sub-" ++ fmt_02d i.

(** [[f"sub-{i:02d}" for i in range(1, n+1)]]. *)
Definition subject_labels (n : nat) : list string := map subject_label (seq 1 n).

(** ** Arrays *)

(** The floating-point operations of numpy that the script applies. *)
Class Numeric := {
  F : Type;
  np_log : F -> F;
  np_neg : F -> F;
  np_div : F -> F -> F;
  np_mean : list F -> F
}.

(** An amplitude array as [read_snirf] returns it: dimensions
    (channel, wavelength, time) with their coordinates. *)
Record DataArray `{Numeric} := mkDataArray {
  da_channel : list string;
  da_wavelength : list F;
  da_time : list F;
  da_values : list (list (list F))
}.

(** The path-length factors: integer values along the one dimension
    "wavelength". *)
Record Dpf `{Numeric} := mkDpf {
  dpf_values : list Z;
  dpf_wavelength : list F
}.

Arguments mkDataArray {_} _ _ _ _.
Arguments mkDpf {_} _ _.

Inductive exn :=
  | NameError (name : string)
  | IndexError
  | ValueError
  | LibraryError (message : string).

Section Arrays.
Context `{Numeric}.

(** [a.mean("time")]: the time axis is reduced, channel and wavelength
    stay. *)
Definition mean_time (a : DataArray) : list (list F) :=
  map (map np_mean) (da_values a).

(** [a / m] with [m] lacking the time dimension: [m] is broadcast along
    time. *)
Definition div_broadcast (a : DataArray) (m : list (list F)) : DataArray :=
  mkDataArray (da_channel a) (da_wavelength a) (da_time a)
    (zip_with (zip_with (fun row mu => map (fun x => np_div x mu) row))
       (da_values a) m).

(** An elementwise operation keeps the coordinates. *)
Definition elementwise (f : F -> F) (a : DataArray) : DataArray :=
  mkDataArray (da_channel a) (da_wavelength a) (da_time a)
    (map (map (map f)) (da_values a)).

(** [- np.log( amp / amp.mean("time") )] *)
Definition optical_density (amp : DataArray) : DataArray :=
  elementwise np_neg (elementwise np_log (div_broadcast amp (mean_time amp))).

(** [a.isel(channel=c, wavelength=w)]: the time series of one channel at
    one wavelength, when both indices are in range. *)
Definition series (a : DataArray) (c w : nat) : option (list F) :=
  match da_values a !! c with
  | Some plane => plane !! w
  | None => None
  end.

(** [xr.DataArray(values, dims="wavelength", coords={"wavelength" : wl})]:
    xarray refuses a coordinate whose length differs from the data's. *)
Definition xr_DataArray (values : list Z) (wl : list F) : exn + Dpf :=
  if Nat.eqb (length values) (length wl) then inr (mkDpf values wl) else inl ValueError.

End Arrays.

(** ** What cedalion and xarray hand to the script *)

(** Values the script only passes on: the stimulus table, the probe
    geometry and the concentration array. *)
Class Opaque := {
  Stim : Type;
  Geo : Type;
  Conc : Type
}.

(** One element of the list [read_snirf] returns. *)
Record Element `{Numeric, Opaque} := mkElement {
  el_data : list DataArray;
  el_stim : Stim;
  el_geo3d : Geo
}.

Arguments mkElement {_ _} _ _ _.

(** A data variable of a dataset. *)
Inductive variable `{Numeric, Opaque} :=
  | VArray (a : DataArray)
  | VGeo (g : Geo)
  | VConc (c : Conc).

(** [xr.Dataset(data_vars=..., attrs=..., coords=...)], as the three
    dictionaries it was built from. *)
Record Dataset `{Numeric, Opaque} := mkDataset {
  data_vars : gmap string variable;
  attrs : gmap string Stim;
  coords : gmap string string
}.

Arguments mkDataset {_ _} _ _ _.

(** The library calls that can raise.  [xr_Dataset_check] is the
    consistency check the [xr.Dataset] constructor runs over the data
    variables: [Some e] when it raises [e]. *)
Class Library `{Numeric, Opaque} := {
  read_snirf : path -> exn + list Element;
  beer_lambert : DataArray -> Geo -> Dpf -> exn + Conc;
  xr_Dataset_check : gmap string variable -> option exn
}.

(** ** Effects

    What the interpreter does to the outside world, in order.  [EvWrite]
    and [EvNetwork] are the effects the script could have and never
    issues. *)
Inductive event :=
  | EvScan (dir : path) (pattern : string)
  | EvPrint (p : path)
  | EvRead (p : path)
  | EvWrite (p : path)
  | EvNetwork (host : string).

(** ** The import prelude

    An import statement is modelled by the names it binds in the globals
    of the module.  The imports themselves are taken to succeed; the
    submodule [cedalion.io] is taken to be loaded by the package. *)

Inductive import_stmt :=
  | Import (module : string) (asname : option string)
  | ImportFrom (module : string) (names : list string).

(** Lines 1 to 17. *)
Definition imports : list import_stmt :=
  [ Import "pathlib" None;
    Import "cedalion" None;
    Import "cedalion.nirs" None;
    Import "cedalion.xrutils" (Some "xrutils");
    ImportFrom "cedalion.datasets" ["get_multisubject_fingertapping_snirf_paths"];
    Import "numpy" (Some "np");
    Import "xarray" (Some "xr");
    Import "pint" None;
    Import "matplotlib.pyplot" (Some "p");
    Import "pandas" (Some "pd");
    ImportFrom "sklearn.preprocessing" ["StandardScaler"; "LabelEncoder"];
    ImportFrom "sklearn.discriminant_analysis" ["LinearDiscriminantAnalysis"];
    ImportFrom "sklearn.model_selection" ["train_test_split"; "cross_validate"];
    ImportFrom "sklearn.metrics" ["accuracy_score"] ].

(** [import a.b.c] binds the name [a]. *)
Fixpoint top_package (module : string) : string :=
  match module with
  | EmptyString => EmptyString
  | String c rest => if Ascii.eqb c "."%char then EmptyString else String c (top_package rest)
  end.

(** The names one import statement binds in the module's globals. *)
Definition bound_names (i : import_stmt) : list string :=
  match i with
  | Import module None => [top_package module]
  | Import module (Some asname) => [asname]
  | ImportFrom module names => names
  end.

Definition exec_imports (l : list import_stmt) : gset string :=
  list_to_set (concat (map bound_names l)).

(** The six names lines 14 to 17 import. *)
Definition sklearn_names : list string :=
  [ "StandardScaler"; "LabelEncoder"; "LinearDiscriminantAnalysis";
    "train_test_split"; "cross_validate"; "accuracy_score" ].

(** Does an import statement bring in one of [sklearn_names]? *)
Definition imports_sklearn_name (i : import_stmt) : bool :=
  match i with
  | Import _ _ => false
  | ImportFrom _ names => existsb (fun n => bool_decide (n ∈ sklearn_names)) names
  end.

(** The prelude with the statements of lines 14 to 17 removed. *)
Definition imports_without_sklearn : list import_stmt :=
  filter (fun i => imports_sklearn_name i = false) imports.

(** ** The interpreter state and its monad *)

Section Script.
Context `{Lib : Library}.

(** The events issued so far and the dictionary [data]. *)
Record state := mkState {
  trace : list event;
  data : gmap string Dataset
}.

(** A computation either raises or returns, and leaves a state behind in
    both cases: an exception does not undo what was done before it. *)
Definition M (A : Type) : Type := state -> (exn + A) * state.

Definition ret {A} (a : A) : M A := fun st => (inr a, st).

Definition raise {A} (e : exn) : M A := fun st => (inl e, st).

Definition bind {A B} (c : M A) (k : A -> M B) : M B :=
  fun st =>
    match c st with
    | (inl e, st') => (inl e, st')
    | (inr a, st') => k a st'
    end.

Definition lift {A} (r : exn + A) : M A :=
  match r with
  | inl e => raise e
  | inr a => ret a
  end.

Definition emit (e : event) : M unit :=
  fun st => (inr tt, mkState (trace st ++ [e]) (data st)).

Notation "x <- c ;; k" := (bind c (fun x => k))
  (at level 100, c at next level, right associativity).
Notation "c ;; k" := (bind c (fun _ => k))
  (at level 100, right associativity).

(** Reading a global name that the imports were to bind. *)
Definition global (ns : gset string) (name : string) : M unit :=
  if bool_decide (name ∈ ns) then ret tt else raise (NameError name).

(** [l[i]] *)
Definition getitem {A} (l : list A) (i : nat) : M A :=
  match l !! i with
  | Some a => ret a
  | None => raise IndexError
  end.

(** [print(fname)] *)
Definition print (fname : path) : M unit := emit (EvPrint fname).

(** [cedalion.io.read_snirf(fname)] *)
Definition io_read_snirf (fname : path) : M (list Element) :=
  emit (EvRead fname) ;; lift (read_snirf fname).

(** [xr.Dataset(data_vars, attrs, coords)] *)
Definition xr_Dataset (vars : gmap string variable) (at_ : gmap string Stim)
    (co : gmap string string) : M Dataset :=
  match xr_Dataset_check vars with
  | Some e => raise e
  | None => ret (mkDataset vars at_ co)
  end.

(** [data = {}] *)
Definition data_new : M unit :=
  fun st => (inr tt, mkState (trace st) ∅).

(** [data[subject] = ds] *)
Definition data_setitem (subject : string) (ds : Dataset) : M unit :=
  fun st => (inr tt, mkState (trace st) (<[subject := ds]> (data st))).

(** [for x in l: body(x)] *)
Fixpoint for_each {A} (l : list A) (body : A -> M unit) : M unit :=
  match l with
  | [] => ret tt
  | x :: l' => body x ;; for_each l' body
  end.

(** ** The script *)

(** [pathlib.Path('../fnirs_data/vfc_high_density/')] *)
Definition vfc : path := [".."; "fnirs_data"; "vfc_high_density"].

Definition pattern : string := "*.snirf".

(** Line 26: [sorted(list(vfc.rglob("*.snirf")))[::-1]] *)
Definition fnames_of (tree : list path) : list path :=
  reverse (PyOrder.sorted (Glob.rglob vfc pattern tree)).

(** Line 27. *)
Definition subjects_of (fnames : list path) : list string :=
  subject_labels (length fnames).

(** Line 31: [zip(subjects, fnames)]. *)
Definition pairs_of (tree : list path) : list (string * path) :=
  zip (subjects_of (fnames_of tree)) (fnames_of tree).

(** Lines 32 to 58: one turn of the loop.  The names [cedalion], [xr] and
    [np] are read from the globals where the source mentions them; the
    dictionary display of line 50 is evaluated entry by entry. *)
Definition loop_body (ns : gset string) (sf : string * path) : M unit :=
  let '(subject, fname) := sf in
  print fname ;;
  global ns "cedalion" ;;
  elements <- io_read_snirf fname ;;
  e0 <- getitem elements 0 ;;
  amp <- getitem (el_data e0) 0 ;;
  e0' <- getitem elements 0 ;;
  let stim := el_stim e0' in
  e0'' <- getitem elements 0 ;;
  let geo3d := el_geo3d e0'' in
  global ns "xr" ;;
  dpf <- lift (xr_DataArray [6; 6]%Z (da_wavelength amp)) ;;
  global ns "xr" ;;
  global ns "np" ;;
  let od := optical_density amp in
  global ns "cedalion" ;;
  conc <- lift (beer_lambert amp geo3d dpf) ;;
  ds <- xr_Dataset
          (<["amp" := VArray amp]> (<["od" := VArray od]>
             (<["geo" := VGeo geo3d]> (<["conc" := VConc conc]> ∅))))
          {["stim" := stim]}
          {["subject" := subject]} ;;
  data_setitem subject ds.

(** What one turn of the loop computes from what the library returns,
    without the effects: the dataset it stores, or the exception it
    raises.  [ScriptFacts.loop_body_run] relates it to [loop_body]. *)
Definition subject_dataset (sf : string * path) : exn + Dataset :=
  let '(subject, fname) := sf in
  match read_snirf fname with
  | inl e => inl e
  | inr elements =>
  match elements !! 0 with
  | None => inl IndexError
  | Some e0 =>
  match el_data e0 !! 0 with
  | None => inl IndexError
  | Some amp =>
  match xr_DataArray [6; 6]%Z (da_wavelength amp) with
  | inl e => inl e
  | inr dpf =>
  match beer_lambert amp (el_geo3d e0) dpf with
  | inl e => inl e
  | inr conc =>
  let vars : gmap string variable :=
    <["amp" := VArray amp]> (<["od" := VArray (optical_density amp)]>
      (<["geo" := VGeo (el_geo3d e0)]> (<["conc" := VConc conc]> ∅))) in
  match xr_Dataset_check vars with
  | Some e => inl e
  | None => inr (mkDataset vars {["stim" := el_stim e0]} {["subject" := subject]})
  end end end end end end.

(** How far the loop gets over the pairs [l]: the number of leading
    turns that store a dataset, the exception of the first turn that
    raises, and the dictionary after the given turns. *)
Fixpoint completed (l : list (string * path)) : nat :=
  match l with
  | [] => 0
  | sf :: l' =>
      match subject_dataset sf with
      | inr _ => S (completed l')
      | inl _ => 0
      end
  end.

Fixpoint failure (l : list (string * path)) : option exn :=
  match l with
  | [] => None
  | sf :: l' =>
      match subject_dataset sf with
      | inr _ => failure l'
      | inl e => Some e
      end
  end.

Definition stored (l : list (string * path)) (d : gmap string Dataset) :
    gmap string Dataset :=
  foldl (fun d sf =>
           match subject_dataset sf with
           | inr ds => <[sf.1 := ds]> d
           | inl _ => d
           end) d l.

(** What one turn of the loop prints and reads. *)
Definition turn_events (fname : path) : list event := [EvPrint fname; EvRead fname].

(** The events of the turns over the files [fs]. *)
Definition loop_events (fs : list path) : list event :=
  concat (map turn_events fs).

(** The names the module body reads from its globals. *)
Definition names_bound (ns : gset string) : Prop :=
  "xr" ∈ ns /\ "np" ∈ ns /\ "pathlib" ∈ ns /\ "cedalion" ∈ ns.

(** Lines 19 to 58.  [xr.set_options] and [np.set_printoptions] change how
    values are displayed and nothing that the script computes. *)
Definition module_body (ns : gset string) (tree : list path) : M unit :=
  global ns "xr" ;;
  global ns "np" ;;
  global ns "pathlib" ;;
  emit (EvScan vfc pattern) ;;
  let fnames := fnames_of tree in
  let subjects := subjects_of fnames in
  data_new ;;
  for_each (zip subjects fnames) (loop_body ns).

(** An event that only reads: a directory scan, a file read, or a line
    on the console. *)
Definition reads_or_prints (e : event) : Prop :=
  match e with
  | EvScan _ _ | EvPrint _ | EvRead _ => True
  | EvWrite _ | EvNetwork _ => False
  end.

(** An event that touches only the input directory: the scan is the one
    of line 26, and a file read is of an entry of [tree] whose name ends in
    [.snirf]. *)
Definition within_input (tree : list path) (e : event) : Prop :=
  match e with
  | EvScan dir pat => dir = vfc /\ pat = "*.snirf"
  | EvRead p =>
      exists rel stem, p = (vfc ++ rel)%list /\ rel ∈ tree /\
                       Glob.name rel = stem ++ ".snirf"
  | EvPrint _ => True
  | EvWrite _ | EvNetwork _ => False
  end.

Definition initial_state : state := mkState [] ∅.

(** Running the module with a given import prelude on a directory
    tree. *)
Definition run (prelude : list import_stmt) (tree : list path) : (exn + unit) * state :=
  module_body (exec_imports prelude) tree initial_state.

(** The script as it is. *)
Definition program (tree : list path) : (exn + unit) * state :=
  run imports tree.

End Script.

(** ** Reading a run *)

(** The files a trace reads, in order. *)
Definition reads_of (t : list event) : list path :=
  omap (fun e => match e with EvRead p => Some p | _ => None end) t.

Section Recordings.
Context `{Lib : Library}.




End Recordings.

(** ** A small concrete world

    Integers stand in for floats and strings for the opaque values, so
    that the script can be run on a directory of two recordings. *)

Module Demo.

Definition numeric : Numeric :=
  {| F := Z;
     np_log := fun x => (Z.log2 x)%Z;
     np_neg := fun x => (- x)%Z;
     np_div := fun x y => (x / y)%Z;
     np_mean := fun l => (foldr Z.add 0 l / Z.of_nat (length l))%Z |}.

Definition opaque : Opaque :=
  {| Stim := string; Geo := string; Conc := string |}.

Definition amp_a : @DataArray numeric :=
  @mkDataArray numeric ["S1D1"] ([760; 850]%Z : list Z) ([0; 1; 2]%Z : list Z)
    ([[[2; 2; 8]; [1; 1; 16]]]%Z : list (list (list Z))).

Definition amp_b : @DataArray numeric :=
  @mkDataArray numeric ["S1D1"; "S1D2"] ([760; 850]%Z : list Z) ([0]%Z : list Z)
    ([[[2]; [3]]; [[5]; [7]]]%Z : list (list (list Z))).

Definition a_snirf : path := [".."; "fnirs_data"; "vfc_high_density"; "a.snirf"].
Definition b_snirf : path := [".."; "fnirs_data"; "vfc_high_density"; "s2"; "b.snirf"].
Definition c_snirf : path := [".."; "fnirs_data"; "vfc_high_density"; "c.snirf"].

Definition library : @Library numeric opaque :=
  {| read_snirf := fun p =>
       if bool_decide (p = a_snirf) then inr [@mkElement numeric opaque [amp_a] "stim a" "geo a"]
       else if bool_decide (p = b_snirf) then inr [@mkElement numeric opaque [amp_b] "stim b" "geo b"]
       else inl (LibraryError "cannot open file");
     beer_lambert := fun _ (g : string) _ => inr ("conc of " ++ g);
     xr_Dataset_check := fun _ => None |}.

(** Two recordings and a text file. *)
Definition tree : list path := [["a.snirf"]; ["notes.txt"]; ["s2"; "b.snirf"]].

(** The same with a third recording that cannot be read. *)
Definition tree_unreadable : list path := [["a.snirf"]; ["c.snirf"]; ["s2"; "b.snirf"]].

(** [tree] listed in another order, with one more file that is no
    recording. *)
Definition tree_shuffled : list path :=
  [["s2"; "b.snirf"]; ["readme.md"]; ["notes.txt"]; ["a.snirf"]].

(** A directory with the recording [a.snirf] alone. *)
Definition tree_other : list path := [["a.snirf"]; ["log.txt"]].

End Demo.

(** * Facts *)

(** ** The order of paths *)

Module PyOrderFacts.
Import PyOrder.

Section Lex.
Context {A : Type}.
Variables eqb leb ltb : A -> A -> bool.
Hypothesis eqb_spec : forall x y, eqb x y = true <-> x = y.
Hypothesis leb_total : forall x y, leb x y = true \/ leb y x = true.
Hypothesis leb_antisym : forall x y, leb x y = true -> leb y x = true -> x = y.
Hypothesis leb_trans :
  forall x y z, leb x y = true -> leb y z = true -> leb x z = true.
Hypothesis ltb_leb : forall x y, ltb x y = negb (leb y x).

Lemma eqb_refl x : eqb x x = true.
Proof. by apply eqb_spec. Qed.

Lemma eqb_false x y : eqb x y = false <-> x <> y.
Proof.
  split.
  - intros E ->. by rewrite eqb_refl in E.
  - intros E. destruct (eqb x y) eqn:Exy; [|done]. by apply eqb_spec in Exy.
Qed.

Lemma eqb_sym x y : eqb x y = eqb y x.
Proof.
  destruct (eqb y x) eqn:E.
  - apply eqb_spec in E as ->. apply eqb_refl.
  - apply eqb_false. apply eqb_false in E. congruence.
Qed.

Lemma lex_leb_refl l : lex_leb eqb leb l l = true.
Proof. induction l as [|x l IH]; simpl; [done|]. by rewrite eqb_refl. Qed.

Lemma lex_leb_total l1 l2 :
  lex_leb eqb leb l1 l2 = true \/ lex_leb eqb leb l2 l1 = true.
Proof.
  revert l2; induction l1 as [|x l1 IH]; intros [|y l2]; simpl; auto.
  rewrite (eqb_sym y x). destruct (eqb x y); [apply IH | apply leb_total].
Qed.

Lemma lex_leb_trans l1 l2 l3 :
  lex_leb eqb leb l1 l2 = true -> lex_leb eqb leb l2 l3 = true ->
  lex_leb eqb leb l1 l3 = true.
Proof.
  revert l2 l3; induction l1 as [|x l1 IH]; intros [|y l2] [|z l3];
    simpl; try done.
  destruct (eqb x y) eqn:Exy.
  - apply eqb_spec in Exy as ->.
    destruct (eqb y z) eqn:Eyz; [apply IH | done].
  - destruct (eqb y z) eqn:Eyz.
    + apply eqb_spec in Eyz as <-. by rewrite Exy.
    + intros Hxy Hyz. destruct (eqb x z) eqn:Exz.
      * apply eqb_spec in Exz as ->. apply eqb_false in Exy.
        destruct Exy. by apply leb_antisym.
      * by apply leb_trans with y.
Qed.

Lemma lex_ltb_leb l1 l2 :
  lex_ltb eqb ltb l1 l2 = negb (lex_leb eqb leb l2 l1).
Proof.
  revert l2; induction l1 as [|x l1 IH]; intros [|y l2]; simpl; try done.
  rewrite (eqb_sym y x). destruct (eqb x y); [apply IH | apply ltb_leb].
Qed.

End Lex.

Ltac compare_to_order :=
  repeat match goal with
    | E : (_ ?= _)%N = Eq |- _ => rewrite N.compare_eq_iff in E
    | E : (_ ?= _)%N = Lt |- _ => rewrite N.compare_lt_iff in E
    | E : (_ ?= _)%N = Gt |- _ => rewrite N.compare_gt_iff in E
    end.

Lemma string_compare_trans s1 s2 s3 :
  String.compare s1 s2 <> Gt -> String.compare s2 s3 <> Gt ->
  String.compare s1 s3 <> Gt.
Proof.
  revert s2 s3; induction s1 as [|a s1 IH]; intros [|b s2] [|c s3];
    simpl; try done.
  unfold Ascii.compare.
  destruct (N_of_ascii a ?= N_of_ascii b)%N eqn:Eab,
           (N_of_ascii b ?= N_of_ascii c)%N eqn:Ebc,
           (N_of_ascii a ?= N_of_ascii c)%N eqn:Eac;
    try done; try (exfalso; compare_to_order; lia).
  apply IH.
Qed.

Lemma string_leb_trans s1 s2 s3 :
  String.leb s1 s2 = true -> String.leb s2 s3 = true -> String.leb s1 s3 = true.
Proof.
  unfold String.leb. intros H12 H23.
  pose proof (string_compare_trans s1 s2 s3) as T.
  destruct (String.compare s1 s2), (String.compare s2 s3),
    (String.compare s1 s3); try done; exfalso; by apply T.
Qed.

Lemma string_ltb_leb s1 s2 : String.ltb s1 s2 = negb (String.leb s2 s1).
Proof.
  unfold String.ltb, String.leb. rewrite String.compare_antisym.
  by destruct (String.compare s2 s1).
Qed.

Lemma path_leb_refl p : path_leb p p = true.
Proof. apply lex_leb_refl, String.eqb_eq. Qed.

Lemma path_leb_total p q : path_leb p q = true \/ path_leb q p = true.
Proof. apply lex_leb_total; [apply String.eqb_eq | apply String.leb_total]. Qed.

Lemma path_leb_trans p q r :
  path_leb p q = true -> path_leb q r = true -> path_leb p r = true.
Proof.
  apply lex_leb_trans;
    [apply String.eqb_eq | apply String.leb_antisym | apply string_leb_trans].
Qed.

Lemma path_ltb_leb p q : path_ltb p q = negb (path_leb q p).
Proof. apply lex_ltb_leb; [apply String.eqb_eq | apply string_ltb_leb]. Qed.

Lemma insert_perm x l : insert x l ≡ₚ x :: l.
Proof.
  induction l as [|y l IH]; simpl; [done|].
  destruct (path_ltb y x); [|done].
  rewrite IH. apply Permutation_swap.
Qed.

Lemma sorted_perm l : sorted l ≡ₚ l.
Proof.
  induction l as [|x l IH]; simpl; [done|].
  unfold sorted in *. simpl. by rewrite insert_perm, IH.
Qed.

Lemma insert_sorted x l :
  StronglySorted path_le l -> StronglySorted path_le (insert x l).
Proof.
  induction 1 as [|y l Hs IH Hy]; simpl.
  - repeat constructor.
  - rewrite path_ltb_leb. destruct (path_leb x y) eqn:Exy; simpl.
    + constructor; [by constructor|]. constructor; [done|].
      eapply Forall_impl; [exact Hy|]. intros z Hz.
      by apply path_leb_trans with y.
    + constructor; [done|]. rewrite insert_perm. constructor; [|done].
      destruct (path_leb_total x y) as [E|E]; [congruence | done].
Qed.

Lemma sorted_sorted l : StronglySorted path_le (sorted l).
Proof.
  induction l as [|x l IH]; [constructor|]. by apply insert_sorted.
Qed.

Lemma StronglySorted_lookup_le (l : list path) i j x y :
  StronglySorted path_le l -> i <= j ->
  l !! i = Some x -> l !! j = Some y -> path_le x y.
Proof.
  intros Hs; revert i j; induction Hs as [|z l Hs IH Hz]; intros i j Hij Hi Hj.
  - done.
  - destruct i as [|i], j as [|j]; simpl in *; simplify_eq.
    + apply path_leb_refl.
    + rewrite Forall_forall in Hz. apply Hz.
      by eapply list_elem_of_lookup_2.
    + lia.
    + apply (IH i j); [lia | done | done].
Qed.

End PyOrderFacts.

(** ** Globbing *)

Module GlobFacts.
Import Glob.

Lemma fnmatch_literal pat s :
  is_literal pat = true -> fnmatch pat s = true <-> s = pat.
Proof.
  revert s; induction pat as [|c pat IH]; intros s Hlit; simpl in *.
  - by destruct s.
  - apply andb_true_iff in Hlit as [Hc Hlit].
    apply andb_true_iff in Hc as [Hstar Hquest].
    apply negb_true_iff in Hstar, Hquest. rewrite Hstar, Hquest.
    destruct s as [|d s]; [done|].
    rewrite andb_true_iff, Ascii.eqb_eq, (IH s Hlit).
    split; [intros [-> ->] | intros [= -> ->]]; done.
Qed.

Lemma fnmatch_star pat s :
  fnmatch (String "*"%char pat) s = true <->
  exists pre suf, s = pre ++ suf /\ fnmatch pat suf = true.
Proof.
  induction s as [|c s IH].
  - simpl. rewrite orb_false_r. split.
    + intros Hm. by exists EmptyString, EmptyString.
    + intros (pre & suf & Hs & Hm). symmetry in Hs.
      destruct pre; [change (suf = EmptyString) in Hs; by subst | done].
  - change (fnmatch (String "*"%char pat) (String c s))
      with (fnmatch pat (String c s) || fnmatch (String "*"%char pat) s).
    rewrite orb_true_iff, IH. split.
    + intros [Hm | (pre & suf & -> & Hm)].
      * by exists EmptyString, (String c s).
      * by exists (String c pre), suf.
    + intros (pre & suf & Hs & Hm). destruct pre as [|d pre].
      * left. change (String c s = suf) in Hs. by subst.
      * right. change (String c s = String d (pre ++ suf)) in Hs.
        injection Hs as -> ->. by exists pre, suf.
Qed.

(** ["*.snirf"] matches the names that end in [.snirf]. *)
Lemma fnmatch_snirf s :
  fnmatch "*.snirf" s = true <-> exists stem, s = stem ++ ".snirf".
Proof.
  rewrite fnmatch_star. split.
  - intros (pre & suf & -> & Hm). apply fnmatch_literal in Hm as ->; [|done].
    by exists pre.
  - intros [stem ->]. exists stem, ".snirf". split; [done|].
    by apply fnmatch_literal.
Qed.

Lemma elem_of_rglob dir pat tree p :
  p ∈ rglob dir pat tree <->
  exists rel, p = (dir ++ rel)%list /\ rel ∈ tree /\ fnmatch pat (name rel) = true.
Proof.
  unfold rglob. change (@map path path) with (@fmap list _ path path).
  rewrite list_elem_of_fmap. setoid_rewrite list_elem_of_filter.
  split; intros (rel & ? & ? & ?); by exists rel.
Qed.

End GlobFacts.

(** ** Subject labels *)

Module LabelFacts.

Lemma str_of_nat_inj i j : str_of_nat i = str_of_nat j -> i = j.
Proof.
  unfold str_of_nat. intros E.
  apply (f_equal NilEmpty.uint_of_string) in E.
  rewrite !NilEmpty.usu in E. injection E as E.
  by apply Unsigned.to_uint_inj.
Qed.

Lemma str_of_nat_not_padded i j : "0" ++ str_of_nat i = str_of_nat j -> i = j.
Proof.
  unfold str_of_nat. intros E.
  apply (f_equal NilEmpty.uint_of_string) in E.
  change (NilEmpty.uint_of_string ("0" ++ ?s))
    with (uint_of_char "0"%char (NilEmpty.uint_of_string s)) in E.
  rewrite !NilEmpty.usu in E. simpl in E. injection E as E.
  apply (f_equal Nat.of_uint) in E. rewrite Unsigned.of_to in E.
  rewrite <- E. change (Nat.of_uint (Decimal.D0 (Nat.to_uint i)))
    with (Nat.of_uint (Nat.to_uint i)). by rewrite Unsigned.of_to.
Qed.

Lemma fmt_02d_inj i j : fmt_02d i = fmt_02d j -> i = j.
Proof.
  unfold fmt_02d.
  destruct (Nat.ltb (String.length (str_of_nat i)) 2) eqn:Ei,
           (Nat.ltb (String.length (str_of_nat j)) 2) eqn:Ej; intros E.
  - injection E as E. by apply str_of_nat_inj.
  - apply str_of_nat_not_padded in E. subst. congruence.
  - symmetry in E. apply str_of_nat_not_padded in E. subst. congruence.
  - by apply str_of_nat_inj.
Qed.

Lemma subject_label_inj i j : subject_label i = subject_label j -> i = j.
Proof. unfold subject_label. intros [= E]. by apply fmt_02d_inj. Qed.

Lemma length_subject_labels n : length (subject_labels n) = n.
Proof. unfold subject_labels. by rewrite length_map, length_seq. Qed.

Lemma lookup_subject_labels n i :
  i < n -> subject_labels n !! i = Some (subject_label (S i)).
Proof.
  intros Hi. unfold subject_labels.
  change (@map nat string) with (@fmap list _ nat string).
  by rewrite list_lookup_fmap, lookup_seq_lt.
Qed.

Lemma NoDup_subject_labels n : NoDup (subject_labels n).
Proof.
  unfold subject_labels.
  change (@map nat string) with (@fmap list _ nat string).
  apply NoDup_fmap_2; [|apply NoDup_seq].
  intros i j. apply subject_label_inj.
Qed.

End LabelFacts.

(** ** Optical density *)

Module ArrayFacts.
Section Arrays.
Context `{Numeric}.

Lemma coords_optical_density amp :
  da_channel (optical_density amp) = da_channel amp /\
  da_wavelength (optical_density amp) = da_wavelength amp /\
  da_time (optical_density amp) = da_time amp.
Proof. done. Qed.

Lemma series_optical_density amp c w :
  series (optical_density amp) c w =
  (fun row => map (fun x => np_neg (np_log (np_div x (np_mean row)))) row)
    <$> series amp c w.
Proof.
  unfold series, optical_density, elementwise, div_broadcast, mean_time. simpl.
  change (@map) with (fun A B => @fmap list _ A B). simpl.
  rewrite !list_lookup_fmap, lookup_zip_with, list_lookup_fmap.
  destruct (da_values amp !! c) as [plane|]; simpl; [|done].
  rewrite !list_lookup_fmap, lookup_zip_with, list_lookup_fmap.
  destruct (plane !! w) as [row|]; simpl; [|done].
  f_equal. rewrite <- !list_fmap_compose. done.
Qed.
End Arrays.
End ArrayFacts.

(** ** The loop *)

Module ScriptFacts.

Section Summary.
Context `{Lib : Library}.

Lemma completed_le l : completed l <= length l.
Proof.
  induction l as [|sf l IH]; simpl; [done|].
  destruct (subject_dataset sf); lia.
Qed.

Lemma completed_ok l j sf :
  j < completed l -> l !! j = Some sf -> exists ds, subject_dataset sf = inr ds.
Proof.
  revert j; induction l as [|sf' l IH]; intros j Hj Hl; simpl in *; [lia|].
  destruct (subject_dataset sf') as [e|ds] eqn:E; [lia|].
  destruct j as [|j]; simpl in Hl.
  - simplify_eq. by exists ds.
  - apply (IH j); [lia | done].
Qed.

Lemma failure_None l : failure l = None <-> completed l = length l.
Proof.
  induction l as [|sf l IH]; simpl; [done|].
  destruct (subject_dataset sf); [split; [done | lia] |].
  rewrite IH. lia.
Qed.

Lemma failure_Some l e :
  failure l = Some e <->
  exists sf, l !! completed l = Some sf /\ subject_dataset sf = inl e.
Proof.
  induction l as [|sf l IH]; simpl.
  - split; [done | by intros (? & ? & _)].
  - destruct (subject_dataset sf) as [e'|ds] eqn:E; simpl.
    + split.
      * intros [= ->]. by exists sf.
      * intros (sf' & [= <-] & E'). congruence.
    + apply IH.
Qed.

Lemma stored_lookup l d s ds :
  stored l d !! s = Some ds ->
  d !! s = Some ds \/ exists f, (s, f) ∈ l /\ subject_dataset (s, f) = inr ds.
Proof.
  revert d; induction l as [|[s' f'] l IH]; intros d Hs; [by left|].
  change (stored ((s', f') :: l) d) with
    (stored l (match subject_dataset (s', f') with
               | inr ds' => <[s' := ds']> d
               | inl _ => d
               end)) in Hs.
  apply IH in Hs as [Hs | (f & Hf & E)].
  - destruct (subject_dataset (s', f')) as [e|ds'] eqn:E; [by left|].
    destruct (decide (s' = s)) as [->|Hne].
    + rewrite lookup_insert_eq in Hs. simplify_eq. right. exists f'.
      split; [left | done].
    + rewrite lookup_insert_ne in Hs by done. by left.
  - right. exists f. split; [by right | done].
Qed.

Lemma dom_stored l d :
  (forall sf, sf ∈ l -> exists ds, subject_dataset sf = inr ds) ->
  dom (stored l d) = dom d ∪ list_to_set l.*1.
Proof.
  revert d; induction l as [|sf l IH]; intros d Hok.
  - unfold stored. simpl. set_solver.
  - change (stored (sf :: l) d) with
      (stored l (match subject_dataset sf with
                 | inr ds' => <[sf.1 := ds']> d
                 | inl _ => d
                 end)).
    destruct (Hok sf) as [ds E]; [left|]. rewrite E.
    rewrite IH by (intros; apply Hok; by right).
    rewrite dom_insert_L. set_solver.
Qed.

End Summary.

Section Loop.
Context `{Lib : Library}.
Variable ns : gset string.
Hypothesis Hns : names_bound ns.

Lemma loop_body_run sf st :
  loop_body ns sf st =
  match subject_dataset sf with
  | inl e => (inl e, mkState (trace st ++ turn_events sf.2) (data st))
  | inr ds => (inr tt, mkState (trace st ++ turn_events sf.2) (<[sf.1 := ds]> (data st)))
  end.
Proof.
  destruct Hns as (Hxr & Hnp & _ & Hced). destruct sf as [subject fname].
  unfold loop_body, subject_dataset, io_read_snirf, print, xr_Dataset,
    data_setitem, getitem, global, bind, emit, lift, raise, ret, turn_events.
  rewrite !bool_decide_eq_true_2 by done. simpl.
  rewrite <- !(assoc_L (++)). simpl.
  destruct (read_snirf fname) as [e|elements]; [done|].
  destruct (elements !! 0) as [e0|]; [|done].
  destruct (el_data e0 !! 0) as [amp|]; [|done].
  destruct (xr_DataArray _ _) as [e|dpf]; [done|].
  destruct (beer_lambert _ _ _) as [e|conc]; [done|].
  destruct (xr_Dataset_check _) as [e|]; done.
Qed.

Lemma for_each_run l st :
  for_each l (loop_body ns) st =
  (match failure l with Some e => inl e | None => inr tt end,
   mkState (trace st ++ loop_events (take (S (completed l)) l).*2)
           (stored (take (completed l) l) (data st))).
Proof.
  revert st; induction l as [|sf l IH]; intros st.
  - simpl. unfold ret, loop_events. simpl. rewrite app_nil_r. by destruct st.
  - simpl. unfold bind. rewrite loop_body_run.
    destruct (subject_dataset sf) as [e|ds] eqn:E.
    + done.
    + rewrite IH. unfold stored, loop_events. simpl. rewrite E.
      by rewrite <- app_assoc.
Qed.

Lemma module_body_run tree :
  module_body ns tree initial_state =
  let l := zip (subjects_of (fnames_of tree)) (fnames_of tree) in
  (match failure l with Some e => inl e | None => inr tt end,
   mkState (EvScan vfc pattern :: loop_events (take (S (completed l)) l).*2)
           (stored (take (completed l) l) ∅)).
Proof.
  destruct Hns as (Hxr & Hnp & Hpath & _).
  unfold module_body, global, bind, emit, data_new, ret.
  rewrite !bool_decide_eq_true_2 by done. simpl.
  by rewrite for_each_run.
Qed.
End Loop.

Lemma imports_bound : names_bound (exec_imports imports).
Proof. repeat split; apply bool_decide_unpack; by vm_compute. Qed.

Lemma imports_without_sklearn_bound : names_bound (exec_imports imports_without_sklearn).
Proof. repeat split; apply bool_decide_unpack; by vm_compute. Qed.

End ScriptFacts.

(** ** Labels and files *)

Module PairFacts.
Import PyOrder PyOrderFacts LabelFacts.

Lemma fnames_perm tree : fnames_of tree ≡ₚ Glob.rglob vfc pattern tree.
Proof. unfold fnames_of. by rewrite reverse_Permutation, sorted_perm. Qed.

Lemma length_fnames tree :
  length (fnames_of tree) = length (Glob.rglob vfc pattern tree).
Proof. by rewrite fnames_perm. Qed.

Lemma fnames_descending tree i j fi fj :
  i <= j -> fnames_of tree !! i = Some fi -> fnames_of tree !! j = Some fj ->
  path_le fj fi.
Proof.
  unfold fnames_of. intros Hij Hi Hj.
  apply reverse_lookup_Some in Hi as [Hi Hli], Hj as [Hj Hlj].
  eapply StronglySorted_lookup_le; [apply sorted_sorted | | exact Hj | exact Hi].
  lia.
Qed.

Lemma pairs_fst tree :
  (pairs_of tree).*1 = subject_labels (length (fnames_of tree)).
Proof.
  unfold pairs_of, subjects_of. apply fst_zip.
  by rewrite length_subject_labels.
Qed.

Lemma pairs_snd tree : (pairs_of tree).*2 = fnames_of tree.
Proof.
  unfold pairs_of, subjects_of. apply snd_zip.
  by rewrite length_subject_labels.
Qed.

Lemma length_pairs tree : length (pairs_of tree) = length (fnames_of tree).
Proof. by rewrite <- (pairs_snd tree), length_fmap. Qed.

Lemma lookup_pairs tree i s f :
  pairs_of tree !! i = Some (s, f) <->
  s = subject_label (S i) /\ fnames_of tree !! i = Some f.
Proof.
  unfold pairs_of, subjects_of. rewrite lookup_zip_with_Some. split.
  - intros (s' & f' & [= -> ->] & Hs & Hf). split; [|done].
    rewrite lookup_subject_labels in Hs by (by eapply lookup_lt_Some).
    by injection Hs.
  - intros [-> Hf]. exists (subject_label (S i)), f. split; [done|].
    split; [|done]. apply lookup_subject_labels. by eapply lookup_lt_Some.
Qed.

Lemma NoDup_pairs_fst tree : NoDup (pairs_of tree).*1.
Proof. rewrite pairs_fst. apply NoDup_subject_labels. Qed.

(** A label is paired with one file only. *)
Lemma pairs_functional tree s f f' :
  (s, f) ∈ pairs_of tree -> (s, f') ∈ pairs_of tree -> f = f'.
Proof.
  intros [i Hi]%list_elem_of_lookup [j Hj]%list_elem_of_lookup.
  apply lookup_pairs in Hi as [Hs Hi], Hj as [Hs' Hj].
  rewrite Hs in Hs'. apply subject_label_inj in Hs'. congruence.
Qed.

Lemma take_pairs tree k :
  (take k (pairs_of tree)).*2 = take k (fnames_of tree).
Proof. by rewrite fmap_take, pairs_snd. Qed.

Lemma fnames_sorted_descending tree :
  StronglySorted (flip path_le) (fnames_of tree).
Proof.
  unfold fnames_of.
  assert (Transitive (flip path_le)) as Htrans.
  { intros p q r Hpq Hqr. unfold flip, path_le in *.
    by apply path_leb_trans with q. }
  apply Sorted_StronglySorted; [done|].
  apply Sorted_reverse, StronglySorted_Sorted, sorted_sorted.
Qed.

End PairFacts.

(** ** The whole run *)

Module ProgramFacts.
Import ScriptFacts PairFacts.

Section Program.
Context `{Lib : Library}.

Lemma run_bound prelude tree :
  names_bound (exec_imports prelude) ->
  run prelude tree =
  (match failure (pairs_of tree) with Some e => inl e | None => inr tt end,
   mkState (EvScan vfc pattern ::
              loop_events (take (S (completed (pairs_of tree))) (fnames_of tree)))
           (stored (take (completed (pairs_of tree)) (pairs_of tree)) ∅)).
Proof.
  intros Hns. unfold run. rewrite (module_body_run _ Hns). simpl.
  fold (pairs_of tree). by rewrite take_pairs.
Qed.

Lemma program_run tree :
  program tree =
  (match failure (pairs_of tree) with Some e => inl e | None => inr tt end,
   mkState (EvScan vfc pattern ::
              loop_events (take (S (completed (pairs_of tree))) (fnames_of tree)))
           (stored (take (completed (pairs_of tree)) (pairs_of tree)) ∅)).
Proof. apply run_bound, imports_bound. Qed.

Lemma entry_of_pair tree i s f :
  pairs_of tree !! i = Some (s, f) ->
  is_Some (data (program tree).2 !! s) ->
  exists ds, data (program tree).2 !! s = Some ds /\ subject_dataset (s, f) = inr ds.
Proof.
  rewrite program_run. simpl. intros Hi [ds Hs]. exists ds. split; [done|].
  apply stored_lookup in Hs as [Hs | (f' & Hf' & E)]; [done|].
  assert (f' = f) as ->; [|done].
  apply (pairs_functional tree s).
  - apply list_elem_of_lookup in Hf' as [j Hj].
    apply lookup_take_Some in Hj as [Hj _]. by eapply list_elem_of_lookup_2.
  - by eapply list_elem_of_lookup_2.
Qed.

Lemma subject_dataset_inr s f ds :
  subject_dataset (s, f) = inr ds ->
  exists elements e0 amp dpf conc,
    read_snirf f = inr elements /\ elements !! 0 = Some e0 /\
    el_data e0 !! 0 = Some amp /\
    xr_DataArray [6; 6]%Z (da_wavelength amp) = inr dpf /\
    beer_lambert amp (el_geo3d e0) dpf = inr conc /\
    ds = mkDataset
           (<["amp" := VArray amp]> (<["od" := VArray (optical_density amp)]>
              (<["geo" := VGeo (el_geo3d e0)]> (<["conc" := VConc conc]> ∅))))
           {["stim" := el_stim e0]} {["subject" := s]}.
Proof.
  unfold subject_dataset.
  destruct (read_snirf f) as [e|elements]; [done|].
  destruct (elements !! 0) as [e0|] eqn:E0; [|done].
  destruct (el_data e0 !! 0) as [amp|] eqn:Eamp; [|done].
  destruct (xr_DataArray _ _) as [e|dpf] eqn:Edpf; [done|].
  destruct (beer_lambert _ _ _) as [e|conc] eqn:Econc; [done|].
  destruct (xr_Dataset_check _) as [e|]; [done|].
  intros [= <-]. by exists elements, e0, amp, dpf, conc.
Qed.

Lemma xr_DataArray_inr values wl dpf :
  xr_DataArray values wl = inr dpf ->
  dpf_values dpf = values /\ dpf_wavelength dpf = wl /\ length wl = length values.
Proof.
  unfold xr_DataArray. destruct (Nat.eqb _ _) eqn:E; [|done].
  apply Nat.eqb_eq in E. by intros [= <-].
Qed.

End Program.
End ProgramFacts.

Module RunFacts.
Import PyOrder PyOrderFacts GlobFacts LabelFacts ScriptFacts PairFacts ProgramFacts.

Section Run.
Context `{Lib : Library}.

Lemma Forall_loop_events (P : event -> Prop) fs :
  (forall f, f ∈ fs -> P (EvPrint f) /\ P (EvRead f)) ->
  Forall P (loop_events fs).
Proof.
  induction fs as [|f fs IH]; intros HP; [constructor|].
  unfold loop_events. simpl. destruct (HP f) as [Hp Hr]; [left|].
  constructor; [done|]. constructor; [done|].
  apply IH. intros f' Hf'. apply HP. by right.
Qed.

Lemma elem_of_fnames tree f :
  f ∈ fnames_of tree ->
  exists rel stem, f = (vfc ++ rel)%list /\ rel ∈ tree /\
                   Glob.name rel = stem ++ ".snirf".
Proof.
  rewrite fnames_perm, elem_of_rglob. intros (rel & -> & Hrel & Hm).
  apply fnmatch_snirf in Hm as [stem Hm]. by exists rel, stem.
Qed.

Lemma dom_data_program tree :
  dom (data (program tree).2) =
  list_to_set (take (completed (pairs_of tree)) (subjects_of (fnames_of tree))).
Proof.
  rewrite program_run. simpl. rewrite dom_stored.
  - rewrite dom_empty_L, fmap_take, pairs_fst. set_solver.
  - intros sf [j Hj]%list_elem_of_lookup.
    apply lookup_take_Some in Hj as [Hj Hlt]. by eapply completed_ok.
Qed.

Lemma completed_first_failure l i sf e :
  l !! i = Some sf -> subject_dataset sf = inl e ->
  (forall j sf', j < i -> l !! j = Some sf' -> exists ds, subject_dataset sf' = inr ds) ->
  completed l = i /\ failure l = Some e.
Proof.
  revert i; induction l as [|sf' l IH]; intros i Hi E Hbefore; [done|].
  destruct i as [|i]; simpl in *.
  - simplify_eq. by rewrite E.
  - destruct (Hbefore 0 sf') as [ds E']; [lia | done |]. rewrite E'.
    destruct (IH i) as [-> ->]; [done | done | | done].
    intros j sf'' Hj Hl. apply (Hbefore (S j)); [lia | done].
Qed.

Lemma loop_body_result sf st :
  (loop_body (exec_imports imports) sf st).1 =
  match subject_dataset sf with inl e => inl e | inr _ => inr tt end.
Proof.
  rewrite (loop_body_run _ imports_bound). by destruct (subject_dataset sf).
Qed.

End Run.
End RunFacts.

(** * The claims *)

Import PyOrder PyOrderFacts GlobFacts LabelFacts ArrayFacts.
Import ScriptFacts PairFacts ProgramFacts RunFacts.

Section Claims.
Context `{Lib : Library}.

(** C1: for every loaded subject recording, the variable [od] of the
    stored dataset is, per channel and wavelength, the negative logarithm
    of the raw amplitude divided by that channel's mean over time. *)
Theorem od_is_negative_log_ratio tree i s f :
  pairs_of tree !! i = Some (s, f) ->
  is_Some (data (program tree).2 !! s) ->
  exists elements e0 amp od ds,
    read_snirf f = inr elements /\ elements !! 0 = Some e0 /\
    el_data e0 !! 0 = Some amp /\
    data (program tree).2 !! s = Some ds /\
    data_vars ds !! "amp" = Some (VArray amp) /\
    data_vars ds !! "od" = Some (VArray od) /\
    da_channel od = da_channel amp /\
    da_wavelength od = da_wavelength amp /\
    da_time od = da_time amp /\
    forall c w,
      series od c w =
      (fun row => map (fun x => np_neg (np_log (np_div x (np_mean row)))) row)
        <$> series amp c w.
Proof.
  intros Hi Hs. destruct (entry_of_pair tree i s f Hi Hs) as (ds & Hds & E).
  apply subject_dataset_inr in E
    as (elements & e0 & amp & dpf & conc & Hr & He0 & Hamp & _ & _ & ->).
  exists elements, e0, amp, (optical_density amp). eexists.
  split_and!; [done.. |]. intros c w. apply series_optical_density.
Qed.

(** C2: the entry stored under a subject's label is a dataset with exactly
    the data variables amp, od, geo and conc, the concentration being what
    the Beer-Lambert routine returned, with the stimulus table as the
    attribute [stim] and the label as the coordinate [subject]. *)
Theorem dataset_entry_shape tree i s f :
  pairs_of tree !! i = Some (s, f) ->
  is_Some (data (program tree).2 !! s) ->
  exists elements e0 amp dpf conc ds,
    read_snirf f = inr elements /\ elements !! 0 = Some e0 /\
    el_data e0 !! 0 = Some amp /\
    beer_lambert amp (el_geo3d e0) dpf = inr conc /\
    data (program tree).2 !! s = Some ds /\
    dom (data_vars ds) = {["amp"; "od"; "geo"; "conc"]} /\
    data_vars ds !! "amp" = Some (VArray amp) /\
    data_vars ds !! "od" = Some (VArray (optical_density amp)) /\
    data_vars ds !! "geo" = Some (VGeo (el_geo3d e0)) /\
    data_vars ds !! "conc" = Some (VConc conc) /\
    attrs ds = {["stim" := el_stim e0]} /\
    coords ds = {["subject" := s]}.
Proof.
  intros Hi Hs. destruct (entry_of_pair tree i s f Hi Hs) as (ds & Hds & E).
  apply subject_dataset_inr in E
    as (elements & e0 & amp & dpf & conc & Hr & He0 & Hamp & _ & Hconc & ->).
  exists elements, e0, amp, dpf, conc. eexists.
  split_and!; done.
Qed.

(** C9: the path-length factors handed to the Beer-Lambert routine are
    rebuilt for each subject over that subject's wavelength coordinate, and
    are 6 at each of its wavelengths. *)
Theorem dpf_is_six_at_each_wavelength tree i s f :
  pairs_of tree !! i = Some (s, f) ->
  is_Some (data (program tree).2 !! s) ->
  exists elements e0 amp dpf conc ds,
    read_snirf f = inr elements /\ elements !! 0 = Some e0 /\
    el_data e0 !! 0 = Some amp /\
    dpf_values dpf = [6; 6]%Z /\
    dpf_wavelength dpf = da_wavelength amp /\
    (forall k w, da_wavelength amp !! k = Some w -> dpf_values dpf !! k = Some 6%Z) /\
    beer_lambert amp (el_geo3d e0) dpf = inr conc /\
    data (program tree).2 !! s = Some ds /\
    data_vars ds !! "conc" = Some (VConc conc).
Proof.
  intros Hi Hs. destruct (entry_of_pair tree i s f Hi Hs) as (ds & Hds & E).
  apply subject_dataset_inr in E
    as (elements & e0 & amp & dpf & conc & Hr & He0 & Hamp & Hdpf & Hconc & ->).
  apply xr_DataArray_inr in Hdpf as (Hv & Hw & Hlen).
  exists elements, e0, amp, dpf, conc. eexists.
  split_and!; [done | done | done | done | done | | done | done | done].
  intros k w Hk. apply lookup_lt_Some in Hk. rewrite Hlen in Hk. rewrite Hv.
  by destruct k as [|[|k]]; [| |simpl in Hk; lia].
Qed.

(** C3: the run scans the directory once, first; the per-subject turns
    follow in the order of the file list fixed by that scan, each printing
    and reading its own file; and the dictionary holds the labels of the
    turns completed so far, in label order.  A run that raises stops in the
    turn after the last completed one. *)
Theorem phases_in_order tree :
  exists completed_turns attempted,
    attempted <= length (fnames_of tree) /\
    trace (program tree).2 =
      EvScan vfc pattern :: loop_events (take attempted (fnames_of tree)) /\
    dom (data (program tree).2) =
      list_to_set (take completed_turns (subjects_of (fnames_of tree))) /\
    (((program tree).1 = inr tt /\
      completed_turns = length (fnames_of tree) /\ attempted = completed_turns) \/
     (exists e, (program tree).1 = inl e /\ attempted = S completed_turns)).
Proof.
  exists (completed (pairs_of tree)).
  pose proof (dom_data_program tree) as Hdom.
  pose proof (length_pairs tree) as Hlen.
  rewrite program_run in *. simpl in *.
  destruct (failure (pairs_of tree)) as [e|] eqn:Ef.
  - exists (S (completed (pairs_of tree))). split_and!; [|done|done|].
    + apply failure_Some in Ef as (sf & Hsf & _).
      apply lookup_lt_Some in Hsf. lia.
    + right. by exists e.
  - apply failure_None in Ef. exists (completed (pairs_of tree)).
    split_and!; [lia| |done|].
    + by rewrite !take_ge by lia.
    + left. split_and!; [done | lia | done].
Qed.

(** C4: every file the run reads is an entry of the directory
    '../fnirs_data/vfc_high_density/' whose name ends in [.snirf], the one
    scan is of that directory with the pattern [*.snirf], and a run that
    completes leaves a mapping with one label for each matching entry. *)
Theorem reads_only_snirf_files tree :
  Forall (within_input tree) (trace (program tree).2) /\
  (((program tree).1 = inr tt /\
    dom (data (program tree).2) =
      list_to_set (subject_labels (length (Glob.rglob vfc pattern tree)))) \/
   (exists e, (program tree).1 = inl e)).
Proof.
  split.
  - rewrite program_run. simpl. constructor; [done|].
    apply Forall_loop_events. intros f Hf. split; [done|]. simpl.
    apply elem_of_fnames. apply list_elem_of_lookup in Hf as [j Hj].
    apply lookup_take_Some in Hj as [Hj _]. by eapply list_elem_of_lookup_2.
  - rewrite dom_data_program. rewrite program_run. simpl.
    destruct (failure (pairs_of tree)) as [e|] eqn:Ef; [right; by exists e|].
    left. split; [done|]. apply failure_None in Ef.
    rewrite Ef, length_pairs. unfold subjects_of.
    rewrite take_ge by (by rewrite length_subject_labels).
    by rewrite length_fnames.
Qed.

(** C5: when the turn of a subject raises, after the turns before it have
    completed, the run ends with that same exception: nothing catches or
    replaces it, no later subject is read, and only the labels before it
    are in the dictionary. *)
Theorem errors_propagate tree i sf e :
  pairs_of tree !! i = Some sf ->
  (forall j sf', j < i -> pairs_of tree !! j = Some sf' ->
     forall st, (loop_body (exec_imports imports) sf' st).1 = inr tt) ->
  (forall st, (loop_body (exec_imports imports) sf st).1 = inl e) ->
  (program tree).1 = inl e /\
  trace (program tree).2 =
    EvScan vfc pattern :: loop_events (take (S i) (fnames_of tree)) /\
  dom (data (program tree).2) =
    list_to_set (take i (subjects_of (fnames_of tree))).
Proof.
  intros Hi Hbefore Hraise.
  assert (completed (pairs_of tree) = i /\ failure (pairs_of tree) = Some e)
    as [Hc Hf].
  { apply (completed_first_failure _ _ sf); [done | |].
    - specialize (Hraise initial_state). rewrite loop_body_result in Hraise.
      destruct (subject_dataset sf); [congruence | done].
    - intros j sf' Hj Hl. specialize (Hbefore j sf' Hj Hl initial_state).
      rewrite loop_body_result in Hbefore.
      destruct (subject_dataset sf') as [|ds]; [done | by exists ds]. }
  rewrite dom_data_program, program_run. simpl. by rewrite Hc, Hf.
Qed.

(** C6: the names that lines 14 to 17 import are not read by the module
    body: the prelude without those four statements binds every other
    name, none of the six, and the run is the same run. *)
Theorem sklearn_imports_unused tree :
  exec_imports imports =
    exec_imports imports_without_sklearn ∪ list_to_set sklearn_names /\
  Forall (fun name => name ∉ exec_imports imports_without_sklearn) sklearn_names /\
  length imports_without_sklearn + 4 = length imports /\
  run imports_without_sklearn tree = program tree.
Proof.
  split_and!.
  - apply (bool_decide_unpack _). by vm_compute.
  - apply (bool_decide_unpack _). by vm_compute.
  - done.
  - rewrite program_run. apply run_bound, imports_without_sklearn_bound.
Qed.

(** C7: the only effects of a run are the directory scan, file reads and
    console prints: it writes no file and opens no connection. *)
Theorem no_network_no_writes tree :
  Forall reads_or_prints (trace (program tree).2).
Proof.
  rewrite program_run. simpl. constructor; [done|].
  by apply Forall_loop_events.
Qed.

(** C10: with no entry matching [*.snirf] the loop body never runs, and
    the run completes with [data] empty. *)
Theorem no_files_empty_mapping tree :
  Glob.rglob vfc pattern tree = [] ->
  program tree = (inr tt, mkState [EvScan vfc pattern] ∅).
Proof.
  intros Hnone. rewrite program_run.
  assert (fnames_of tree = []) as Hf by (unfold fnames_of; by rewrite Hnone).
  assert (pairs_of tree = []) as -> by (unfold pairs_of; by rewrite Hf).
  by rewrite Hf.
Qed.

End Claims.

(** C8: with n matching entries the labels are [sub-01] to the label of
    n, in that order; the files paired with them are the matching entries,
    each once, in descending order of paths, so that [sub-01] has the
    greatest path and the last label the least. *)
Theorem labels_and_pairing tree :
  let n := length (Glob.rglob vfc pattern tree) in
  (pairs_of tree).*1 = map subject_label (seq 1 n) /\
  (pairs_of tree).*2 ≡ₚ Glob.rglob vfc pattern tree /\
  StronglySorted (flip path_le) (pairs_of tree).*2 /\
  Forall (fun p =>
            exists f_first f_last,
              pairs_of tree !! 0 = Some ("sub-01", f_first) /\
              pairs_of tree !! (n - 1) = Some (subject_label n, f_last) /\
              path_le p f_first /\ path_le f_last p)
         (Glob.rglob vfc pattern tree).
Proof.
  intros n. split_and!.
  - rewrite pairs_fst, length_fnames. done.
  - rewrite pairs_snd. apply fnames_perm.
  - rewrite pairs_snd. apply fnames_sorted_descending.
  - apply Forall_forall. intros p Hp.
    rewrite <- fnames_perm in Hp. apply list_elem_of_lookup in Hp as [j Hj].
    pose proof (lookup_lt_Some _ _ _ Hj) as Hlt.
    pose proof (length_fnames tree) as Hlen. fold n in Hlen.
    destruct (lookup_lt_is_Some_2 (fnames_of tree) 0) as [f_first Hfirst]; [lia|].
    destruct (lookup_lt_is_Some_2 (fnames_of tree) (n - 1)) as [f_last Hlast]; [lia|].
    exists f_first, f_last. split_and!.
    + by apply lookup_pairs.
    + apply lookup_pairs. split; [|done]. f_equal. lia.
    + apply (fnames_descending tree 0 j); [lia | done | done].
    + apply (fnames_descending tree j (n - 1)); [lia | done | done].
Qed.

(** * The script on the small world *)

Module DemoRuns.

#[local] Existing Instance Demo.numeric.
#[local] Existing Instance Demo.opaque.
#[local] Existing Instance Demo.library.

Example labels_of_three : subject_labels 3 = ["sub-01"; "sub-02"; "sub-03"].
Proof. reflexivity. Qed.

Example labels_beyond_two_digits :
  subject_label 10 = "sub-10" /\ subject_label 100 = "sub-100".
Proof. by vm_compute. Qed.

Example fnmatch_snirf_names :
  Glob.fnmatch "*.snirf" "rec.snirf" = true /\
  Glob.fnmatch "*.snirf" ".snirf" = true /\
  Glob.fnmatch "*.snirf" "rec.snirf.bak" = false /\
  Glob.fnmatch "*.snirf" "rec.SNIRF" = false.
Proof. by vm_compute. Qed.

(** The order of paths goes part by part: [a/b.snirf] comes before
    [a-b.snirf], although the character [/] comes after [-]. *)
Example path_order_by_parts :
  PyOrder.path_ltb ["a"; "b.snirf"] ["a-b.snirf"] = true /\
  String.ltb "a-b.snirf" "a/b.snirf" = true.
Proof. by vm_compute. Qed.

Example sorted_is_stable_and_ascending :
  PyOrder.sorted [["b"]; ["a"; "z"]; ["a"]; ["b"]] = [["a"]; ["a"; "z"]; ["b"]; ["b"]].
Proof. by vm_compute. Qed.

Example fnames_of_tree : fnames_of Demo.tree = [Demo.b_snirf; Demo.a_snirf].
Proof. by vm_compute. Qed.

Example trace_of_tree :
  (program Demo.tree).1 = inr tt /\
  trace (program Demo.tree).2 =
    [EvScan vfc pattern; EvPrint Demo.b_snirf; EvRead Demo.b_snirf;
     EvPrint Demo.a_snirf; EvRead Demo.a_snirf].
Proof. by vm_compute. Qed.

Example od_of_amp_a :
  da_values (optical_density Demo.amp_a) = [[[0; 0; -1]; [0; 0; -1]]]%Z.
Proof. by vm_compute. Qed.

(** A recording with three wavelengths: the two factors do not fit its
    wavelength coordinate. *)
Example dpf_needs_two_wavelengths :
  xr_DataArray [6; 6]%Z ([690; 760; 850]%Z : list Z) = inl ValueError.
Proof. reflexivity. Qed.

(** The names the body does read matter: without the import of numpy the
    run stops at line 20, before the directory is scanned. *)
Example run_without_numpy :
  run [Import "pathlib" None; Import "cedalion" None; Import "xarray" (Some "xr")]
      Demo.tree
  = (inl (NameError "np"), mkState [] ∅).
Proof. by vm_compute. Qed.

Example imports_without_sklearn_are :
  imports_without_sklearn = take 10 imports.
Proof. reflexivity. Qed.

End DemoRuns.

Module Witnesses.

#[local] Existing Instance Demo.numeric.
#[local] Existing Instance Demo.opaque.
#[local] Existing Instance Demo.library.

Lemma demo_pairs :
  pairs_of Demo.tree = [("sub-01", Demo.b_snirf); ("sub-02", Demo.a_snirf)].
Proof. by vm_compute. Qed.

Lemma demo_stored : is_Some (data (program Demo.tree).2 !! "sub-01").
Proof. apply (bool_decide_unpack _). by vm_compute. Qed.

Lemma od_is_negative_log_ratio_witness :
  pairs_of Demo.tree !! 0 = Some ("sub-01", Demo.b_snirf) /\
  is_Some (data (program Demo.tree).2 !! "sub-01") /\
  exists elements e0 amp od ds,
    read_snirf Demo.b_snirf = inr elements /\ elements !! 0 = Some e0 /\
    el_data e0 !! 0 = Some amp /\
    data (program Demo.tree).2 !! "sub-01" = Some ds /\
    data_vars ds !! "amp" = Some (VArray amp) /\
    data_vars ds !! "od" = Some (VArray od) /\
    da_channel od = da_channel amp /\
    da_wavelength od = da_wavelength amp /\
    da_time od = da_time amp /\
    forall c w,
      series od c w =
      (fun row => map (fun x => np_neg (np_log (np_div x (np_mean row)))) row)
        <$> series amp c w.
Proof.
  split; [by vm_compute|]. split; [apply (bool_decide_unpack _); by vm_compute|].
  apply (od_is_negative_log_ratio Demo.tree 0 "sub-01" Demo.b_snirf).
  - by vm_compute.
  - apply (bool_decide_unpack _). by vm_compute.
Defined.

Lemma dataset_entry_shape_witness :
  pairs_of Demo.tree !! 1 = Some ("sub-02", Demo.a_snirf) /\
  is_Some (data (program Demo.tree).2 !! "sub-02") /\
  exists elements e0 amp dpf conc ds,
    read_snirf Demo.a_snirf = inr elements /\ elements !! 0 = Some e0 /\
    el_data e0 !! 0 = Some amp /\
    beer_lambert amp (el_geo3d e0) dpf = inr conc /\
    data (program Demo.tree).2 !! "sub-02" = Some ds /\
    dom (data_vars ds) = {["amp"; "od"; "geo"; "conc"]} /\
    data_vars ds !! "amp" = Some (VArray amp) /\
    data_vars ds !! "od" = Some (VArray (optical_density amp)) /\
    data_vars ds !! "geo" = Some (VGeo (el_geo3d e0)) /\
    data_vars ds !! "conc" = Some (VConc conc) /\
    attrs ds = {["stim" := el_stim e0]} /\
    coords ds = {["subject" := "sub-02"]}.
Proof.
  split; [by vm_compute|]. split; [apply (bool_decide_unpack _); by vm_compute|].
  apply (dataset_entry_shape Demo.tree 1 "sub-02" Demo.a_snirf).
  - by vm_compute.
  - apply (bool_decide_unpack _). by vm_compute.
Defined.

Lemma dpf_is_six_at_each_wavelength_witness :
  pairs_of Demo.tree !! 0 = Some ("sub-01", Demo.b_snirf) /\
  is_Some (data (program Demo.tree).2 !! "sub-01") /\
  exists elements e0 amp dpf conc ds,
    read_snirf Demo.b_snirf = inr elements /\ elements !! 0 = Some e0 /\
    el_data e0 !! 0 = Some amp /\
    dpf_values dpf = [6; 6]%Z /\
    dpf_wavelength dpf = da_wavelength amp /\
    (forall k w, da_wavelength amp !! k = Some w -> dpf_values dpf !! k = Some 6%Z) /\
    beer_lambert amp (el_geo3d e0) dpf = inr conc /\
    data (program Demo.tree).2 !! "sub-01" = Some ds /\
    data_vars ds !! "conc" = Some (VConc conc).
Proof.
  split; [by vm_compute|]. split; [apply (bool_decide_unpack _); by vm_compute|].
  apply (dpf_is_six_at_each_wavelength Demo.tree 0 "sub-01" Demo.b_snirf).
  - by vm_compute.
  - apply (bool_decide_unpack _). by vm_compute.
Defined.

Lemma errors_propagate_witness :
  pairs_of Demo.tree_unreadable !! 1 = Some ("sub-02", Demo.c_snirf) /\
  (forall st,
     (loop_body (exec_imports imports) ("sub-02", Demo.c_snirf) st).1 =
     inl (LibraryError "cannot open file")) /\
  (program Demo.tree_unreadable).1 = inl (LibraryError "cannot open file") /\
  trace (program Demo.tree_unreadable).2 =
    EvScan vfc pattern ::
      loop_events (take 2 (fnames_of Demo.tree_unreadable)) /\
  dom (data (program Demo.tree_unreadable).2) =
    list_to_set (take 1 (subjects_of (fnames_of Demo.tree_unreadable))).
Proof.
  split; [by vm_compute|]. split; [intros st; by vm_compute|].
  apply (errors_propagate Demo.tree_unreadable 1 ("sub-02", Demo.c_snirf)).
  - by vm_compute.
  - intros j sf' Hj Hl st. destruct j as [|j]; [|lia].
    vm_compute in Hl. injection Hl as <-. by vm_compute.
  - intros st. by vm_compute.
Defined.

Lemma no_files_empty_mapping_witness :
  Glob.rglob vfc pattern [["notes.txt"]; ["raw"; "a.snirf.bak"]] = [] /\
  program [["notes.txt"]; ["raw"; "a.snirf.bak"]] =
    (inr tt, mkState [EvScan vfc pattern] ∅).
Proof.
  split; [by vm_compute|].
  apply (no_files_empty_mapping [["notes.txt"]; ["raw"; "a.snirf.bak"]]).
  by vm_compute.
Defined.

End Witnesses.

(** * More about the run *)

(** ** Further facts *)

Module OrderMore.

Lemma lex_leb_antisym {A} (eqb leb : A -> A -> bool) :
  (forall x y, eqb x y = true <-> x = y) ->
  (forall x y, leb x y = true -> leb y x = true -> x = y) ->
  forall l1 l2,
    lex_leb eqb leb l1 l2 = true -> lex_leb eqb leb l2 l1 = true -> l1 = l2.
Proof.
  intros Heq Hanti. induction l1 as [|x l1 IH]; intros [|y l2]; simpl; try done.
  destruct (eqb x y) eqn:Exy.
  - apply Heq in Exy as ->. rewrite (proj2 (Heq y y) eq_refl).
    intros H1 H2. f_equal. by apply IH.
  - intros H1. destruct (eqb y x) eqn:Eyx.
    + apply Heq in Eyx as ->. rewrite (proj2 (Heq x x) eq_refl) in Exy. done.
    + intros H2. rewrite (Hanti x y H1 H2) in Exy.
      rewrite (proj2 (Heq y y) eq_refl) in Exy. done.
Qed.

Lemma path_le_antisym p q : path_le p q -> path_le q p -> p = q.
Proof.
  apply lex_leb_antisym; [apply String.eqb_eq | apply String.leb_antisym].
Qed.

Lemma sorted_of_perm l1 l2 : l1 ≡ₚ l2 -> sorted l1 = sorted l2.
Proof.
  intros Hp.
  assert (AntiSymm (=) path_le) as Hanti by (intros p q; apply path_le_antisym).
  apply (StronglySorted_unique path_le); [apply sorted_sorted.. |].
  by rewrite !sorted_perm.
Qed.

Lemma insert_greatest x l :
  Forall (fun y => path_ltb y x = true) l -> insert x l = (l ++ [x])%list.
Proof.
  induction 1 as [|y l Hy _ IH]; simpl; [done|]. by rewrite Hy, IH.
Qed.

Lemma insert_least x l :
  Forall (fun y => path_ltb y x = false) l -> insert x l = x :: l.
Proof. destruct 1 as [|y l Hy _]; simpl; [done|]. by rewrite Hy. Qed.

End OrderMore.

Module ReadFacts.

Lemma reads_of_loop_events fs : reads_of (loop_events fs) = fs.
Proof.
  induction fs as [|f fs IH]; [done|].
  change (loop_events (f :: fs)) with (EvPrint f :: EvRead f :: loop_events fs).
  change (reads_of (EvPrint f :: EvRead f :: loop_events fs))
    with (f :: reads_of (loop_events fs)).
  by rewrite IH.
Qed.

Lemma elem_of_reads_of t p : p ∈ reads_of t <-> EvRead p ∈ t.
Proof.
  unfold reads_of. rewrite list_elem_of_omap. split.
  - intros (e & He & Hp). destruct e; simplify_eq. done.
  - intros Hp. by exists (EvRead p).
Qed.

Lemma rglob_cons_match dir pat rel tree :
  Glob.fnmatch pat (Glob.name rel) = true ->
  Glob.rglob dir pat (rel :: tree) = (dir ++ rel)%list :: Glob.rglob dir pat tree.
Proof. intros Hm. unfold Glob.rglob. by rewrite filter_cons_True. Qed.

Lemma NoDup_rglob dir pat tree : NoDup tree -> NoDup (Glob.rglob dir pat tree).
Proof.
  intros Hnd. unfold Glob.rglob.
  change (@map path path) with (@fmap list _ path path).
  apply NoDup_fmap_2; [|by apply NoDup_filter].
  intros p q Hpq. by apply app_inv_head in Hpq.
Qed.

End ReadFacts.

Module TurnFacts.
Section Turn.
Context `{Lib : Library}.




End Turn.
End TurnFacts.

Module ShiftFacts.
Import OrderMore ReadFacts.

Lemma fnames_cons_greatest rel tree :
  Glob.fnmatch pattern (Glob.name rel) = true ->
  Forall (fun q => path_ltb q (vfc ++ rel)%list = true) (Glob.rglob vfc pattern tree) ->
  fnames_of (rel :: tree) = (vfc ++ rel)%list :: fnames_of tree.
Proof.
  intros Hm Hall. unfold fnames_of. rewrite rglob_cons_match by done.
  change (sorted (?x :: ?l)) with (insert x (sorted l)).
  rewrite insert_greatest, reverse_snoc; [done|].
  by rewrite sorted_perm.
Qed.

Lemma fnames_cons_least rel tree :
  Glob.fnmatch pattern (Glob.name rel) = true ->
  Forall (fun q => path_ltb q (vfc ++ rel)%list = false) (Glob.rglob vfc pattern tree) ->
  fnames_of (rel :: tree) = (fnames_of tree ++ [(vfc ++ rel)%list])%list.
Proof.
  intros Hm Hall. unfold fnames_of. rewrite rglob_cons_match by done.
  change (sorted (?x :: ?l)) with (insert x (sorted l)).
  rewrite insert_least, reverse_cons; [done|].
  by rewrite sorted_perm.
Qed.

End ShiftFacts.

(** ** Properties *)

Import OrderMore ReadFacts TurnFacts ShiftFacts.

(** X8: labels are positions in the descending file list.  A new
    recording whose path is greater than every present one takes
    [sub-01], and the label of every other recording moves up by one. *)
Theorem greater_file_shifts_every_label rel tree i s f :
  Glob.fnmatch pattern (Glob.name rel) = true ->
  Forall (fun q => path_ltb q (vfc ++ rel)%list = true) (Glob.rglob vfc pattern tree) ->
  pairs_of tree !! i = Some (s, f) ->
  pairs_of (rel :: tree) !! 0 = Some ("sub-01", (vfc ++ rel)%list) /\
  pairs_of (rel :: tree) !! S i = Some (subject_label (S (S i)), f) /\
  s = subject_label (S i).
Proof.
  intros Hm Hall Hi. apply lookup_pairs in Hi as [-> Hf].
  rewrite !lookup_pairs, (fnames_cons_greatest rel tree Hm Hall). done.
Qed.

(** X9: a new recording whose path is not greater than any present one
    takes the next free label, and every other recording keeps its
    label. *)
Theorem smaller_file_keeps_every_label rel tree i s f :
  Glob.fnmatch pattern (Glob.name rel) = true ->
  Forall (fun q => path_ltb q (vfc ++ rel)%list = false) (Glob.rglob vfc pattern tree) ->
  pairs_of tree !! i = Some (s, f) ->
  pairs_of (rel :: tree) !! i = Some (s, f) /\
  pairs_of (rel :: tree) !! length (pairs_of tree) =
    Some (subject_label (S (length (pairs_of tree))), (vfc ++ rel)%list).
Proof.
  intros Hm Hall Hi. apply lookup_pairs in Hi as [-> Hf].
  rewrite !lookup_pairs, (fnames_cons_least rel tree Hm Hall), length_pairs.
  split_and!; [done | | done |].
  - by apply lookup_app_l_Some.
  - by rewrite lookup_app_r, Nat.sub_diag.
Qed.

(** X10: thanks to the padding to two digits, the labels of fewer than
    a hundred subjects sort as strings the way their numbers do. *)
Theorem labels_sort_like_numbers_below_100 i j :
  i < j -> j < 100 ->
  String.ltb (subject_label i) (subject_label j) = true.
Proof.
  intros Hij Hj.
  assert (forallb (fun j => forallb (fun i =>
            String.ltb (subject_label i) (subject_label j)) (seq 0 j))
          (seq 0 100) = true) as Hall by (by vm_compute).
  rewrite forallb_forall in Hall.
  specialize (Hall j). rewrite forallb_forall in Hall.
  apply Hall; apply in_seq; lia.
Qed.

Section MoreProperties.
Context `{Lib : Library}.

(** X1: a run that completes has stored one dataset for each matching
    entry: the labels are pairwise different, so no turn overwrites the
    entry of another. *)
Theorem completed_run_has_every_subject tree :
  (program tree).1 = inr tt ->
  size (data (program tree).2) = length (Glob.rglob vfc pattern tree) /\
  forall i s f, pairs_of tree !! i = Some (s, f) ->
                is_Some (data (program tree).2 !! s).
Proof.
  intros Hok. rewrite program_run in Hok. simpl in Hok.
  destruct (failure (pairs_of tree)) eqn:Ef; [discriminate Hok|].
  apply failure_None in Ef. pose proof (dom_data_program tree) as Hdom. rewrite Ef, length_pairs in Hdom.
  unfold subjects_of in Hdom.
  rewrite take_ge in Hdom by (by rewrite length_subject_labels).
  split.
  - rewrite <- size_dom, Hdom, size_list_to_set by apply NoDup_subject_labels.
    by rewrite length_subject_labels, length_fnames.
  - intros i s f Hi. apply elem_of_dom. rewrite Hdom, elem_of_list_to_set.
    rewrite <- pairs_fst. apply list_elem_of_fmap. exists (s, f).
    split; [done|]. by eapply list_elem_of_lookup_2.
Qed.

(** X2: the run depends on the directory only through the set of its
    matching entries: neither the order in which the operating system
    lists them nor the entries that do not match change the result, the
    trace or the dictionary. *)
Theorem run_depends_on_matches_only tree tree' :
  Glob.rglob vfc pattern tree ≡ₚ Glob.rglob vfc pattern tree' ->
  program tree = program tree'.
Proof.
  intros Hp.
  assert (fnames_of tree = fnames_of tree') as Hf.
  { unfold fnames_of. f_equal. by apply sorted_of_perm. }
  assert (pairs_of tree = pairs_of tree') as Hl by (unfold pairs_of; by rewrite Hf).
  etransitivity; [apply program_run|]. symmetry.
  etransitivity; [apply program_run|]. by rewrite Hf, Hl.
Qed.

(** X3: a run that completes reads the matching entries, all of them, at
    any depth below the directory, in the order of the file list. *)
Theorem completed_run_reads_every_match tree :
  (program tree).1 = inr tt ->
  reads_of (trace (program tree).2) = fnames_of tree /\
  reads_of (trace (program tree).2) ≡ₚ Glob.rglob vfc pattern tree /\
  forall rel stem,
    rel ∈ tree -> Glob.name rel = stem ++ ".snirf" ->
    EvRead (vfc ++ rel)%list ∈ trace (program tree).2.
Proof.
  intros Hok.
  assert (reads_of (trace (program tree).2) = fnames_of tree) as Hreads.
  { rewrite program_run in *. simpl in *.
    destruct (failure (pairs_of tree)) eqn:Ef; [done|].
    apply failure_None in Ef. rewrite Ef, length_pairs.
    rewrite take_ge by lia.
    change (reads_of (EvScan vfc pattern :: loop_events (fnames_of tree)))
      with (reads_of (loop_events (fnames_of tree))).
    apply reads_of_loop_events. }
  split_and!; [done | by rewrite Hreads, fnames_perm |].
  intros rel stem Hrel Hname. apply elem_of_reads_of.
  rewrite Hreads, fnames_perm. apply elem_of_rglob. exists rel.
  split_and!; [done | done |]. apply fnmatch_snirf. by exists stem.
Qed.

(** X4: over a directory listing without repeated entries, no file is
    read twice, whether the run completes or not. *)
Theorem no_file_read_twice tree :
  NoDup tree -> NoDup (reads_of (trace (program tree).2)).
Proof.
  intros Hnd. rewrite program_run. simpl.
  change (reads_of (EvScan vfc pattern :: ?t)) with (reads_of t).
  rewrite reads_of_loop_events.
  eapply sublist_NoDup; [|apply sublist_take].
  rewrite fnames_perm. by apply NoDup_rglob.
Qed.



(** X7: the global name [cedalion] is read inside the loop only.  With
    the other three names bound and [cedalion] unbound, a directory
    without matches still gives a completed run, and otherwise the run
    stops with a [NameError] after printing the first file name, before
    any file is read. *)
Theorem cedalion_is_looked_up_in_the_first_turn prelude tree :
  "xr" ∈ exec_imports prelude -> "np" ∈ exec_imports prelude ->
  "pathlib" ∈ exec_imports prelude -> "cedalion" ∉ exec_imports prelude ->
  run prelude tree =
  match fnames_of tree with
  | [] => (inr tt, mkState [EvScan vfc pattern] ∅)
  | f :: _ => (inl (NameError "cedalion"),
               mkState [EvScan vfc pattern; EvPrint f] ∅)
  end.
Proof.
  intros Hxr Hnp Hpath Hced.
  unfold run, module_body, global, bind, emit, data_new, ret, subjects_of.
  rewrite !bool_decide_eq_true_2 by done. simpl.
  destruct (fnames_of tree) as [|f fs]; [done|].
  simpl. unfold bind, print, emit, global.
  by rewrite bool_decide_eq_false_2.
Qed.


End MoreProperties.

(** ** On the small world *)

Module MoreWitnesses.

#[local] Existing Instance Demo.numeric.
#[local] Existing Instance Demo.opaque.
#[local] Existing Instance Demo.library.

Lemma completed_run_has_every_subject_witness :
  (program Demo.tree).1 = inr tt /\
  size (data (program Demo.tree).2) = length (Glob.rglob vfc pattern Demo.tree) /\
  forall i s f, pairs_of Demo.tree !! i = Some (s, f) ->
                is_Some (data (program Demo.tree).2 !! s).
Proof.
  split; [by vm_compute|].
  apply (completed_run_has_every_subject Demo.tree). by vm_compute.
Defined.

Lemma run_depends_on_matches_only_witness :
  Glob.rglob vfc pattern Demo.tree ≡ₚ Glob.rglob vfc pattern Demo.tree_shuffled /\
  program Demo.tree = program Demo.tree_shuffled.
Proof.
  assert (Glob.rglob vfc pattern Demo.tree ≡ₚ
          Glob.rglob vfc pattern Demo.tree_shuffled) as Hp.
  { vm_compute. apply perm_swap. }
  split; [exact Hp|].
  apply (run_depends_on_matches_only Demo.tree Demo.tree_shuffled Hp).
Defined.

Lemma completed_run_reads_every_match_witness :
  (program Demo.tree).1 = inr tt /\
  reads_of (trace (program Demo.tree).2) = fnames_of Demo.tree /\
  reads_of (trace (program Demo.tree).2) ≡ₚ Glob.rglob vfc pattern Demo.tree /\
  forall rel stem,
    rel ∈ Demo.tree -> Glob.name rel = stem ++ ".snirf" ->
    EvRead (vfc ++ rel)%list ∈ trace (program Demo.tree).2.
Proof.
  split; [by vm_compute|].
  apply (completed_run_reads_every_match Demo.tree). by vm_compute.
Defined.

Lemma no_file_read_twice_witness :
  NoDup Demo.tree_unreadable /\
  NoDup (reads_of (trace (program Demo.tree_unreadable).2)).
Proof.
  assert (NoDup Demo.tree_unreadable) as Hnd.
  { apply (bool_decide_unpack _). by vm_compute. }
  split; [exact Hnd|].
  apply (no_file_read_twice Demo.tree_unreadable Hnd).
Defined.


Lemma cedalion_is_looked_up_in_the_first_turn_witness :
  ("cedalion" ∉ exec_imports (take 1 imports ++ drop 5 imports)%list) /\
  run (take 1 imports ++ drop 5 imports)%list Demo.tree =
    (inl (NameError "cedalion"),
     mkState [EvScan vfc pattern; EvPrint Demo.b_snirf] ∅).
Proof.
  split; [apply (bool_decide_unpack _); by vm_compute|].
  apply (cedalion_is_looked_up_in_the_first_turn
           (take 1 imports ++ drop 5 imports)%list Demo.tree);
    apply (bool_decide_unpack _); by vm_compute.
Defined.

Lemma greater_file_shifts_every_label_witness :
  pairs_of Demo.tree_other !! 0 = Some ("sub-01", Demo.a_snirf) /\
  pairs_of (["s2"; "b.snirf"] :: Demo.tree_other) !! 0 = Some ("sub-01", Demo.b_snirf) /\
  pairs_of (["s2"; "b.snirf"] :: Demo.tree_other) !! 1 = Some ("sub-02", Demo.a_snirf).
Proof.
  split; [by vm_compute|].
  destruct (greater_file_shifts_every_label ["s2"; "b.snirf"] Demo.tree_other
              0 "sub-01" Demo.a_snirf) as (H0 & H1 & _).
  - by vm_compute.
  - apply (bool_decide_unpack _). by vm_compute.
  - by vm_compute.
  - split; [exact H0 | exact H1].
Defined.

Lemma smaller_file_keeps_every_label_witness :
  pairs_of [["s2"; "b.snirf"]] !! 0 = Some ("sub-01", Demo.b_snirf) /\
  pairs_of [["a.snirf"]; ["s2"; "b.snirf"]] !! 0 = Some ("sub-01", Demo.b_snirf) /\
  pairs_of [["a.snirf"]; ["s2"; "b.snirf"]] !! 1 = Some ("sub-02", Demo.a_snirf).
Proof.
  split; [by vm_compute|].
  apply (smaller_file_keeps_every_label ["a.snirf"] [["s2"; "b.snirf"]]
           0 "sub-01" Demo.b_snirf).
  - by vm_compute.
  - apply (bool_decide_unpack _). by vm_compute.
  - by vm_compute.
Defined.

Lemma labels_sort_like_numbers_below_100_witness :
  String.ltb (subject_label 9) (subject_label 10) = true.
Proof. apply (labels_sort_like_numbers_below_100 9 10); lia. Defined.


(** Beyond two digits the order of the labels as strings is no longer the
    order of their numbers. *)
Example labels_beyond_99_sort_differently :
  String.ltb (subject_label 100) (subject_label 11) = true.
Proof. by vm_compute. Qed.

End MoreWitnesses.
